(** * Named stochastic sampling: the models of
      [notebooks/1. An-introduction-to-models-in-Pyro.py]

    The notebook defines four stochastic functions ([weather],
    [ice_cream_sales], [geometric], [make_normal_normal]) on top of the
    named sampling primitive [pyro.sample].  They are embedded here as
    computations in a small state-and-error monad whose state is the
    process-wide random source together with the trace of the current
    top-level invocation.

    The first definition of [weather] (lines 58-67, on
    [torch.distributions], without names) is shadowed by the second
    (lines 87-96), which is the one embedded and the one
    [ice_cream_sales] calls.

    Python floats and the values of tensors are represented by rationals
    ([Q]); the comparisons with the literals of the source are exact on
    them.  The one arithmetic operation on tensors, the product of line
    147, is the multiplication of binary32 numbers, with its rounding and
    its overflow. *)

From Stdlib Require Import QArith ZArith Lia.
From Stdlib Require SpecFloat.
From stdpp Require Import base option list strings pretty gmap.

Local Open Scope Q_scope.

(** ** Data model *)

(** A distribution specification: a parametric family and its parameters. *)
Inductive dist : Type :=
  | BernoulliD (probs : Q)
  | NormalD (loc scale : Q).

(** The errors a stochastic function can end with. *)
Inductive error : Type :=
  | InvalidParameter
  | DuplicateName
  | KeyError
  | RecursionLimitExceeded.

Inductive result (A : Type) : Type :=
  | Ok (a : A)
  | Err (e : error).
Arguments Ok {A} a.
Arguments Err {A} e.

(** One entry of a trace: the name, the distribution and the drawn value. *)
Record site : Type := Site {
  site_name : string;
  site_fn : dist;
  site_value : Q
}.

Definition names (tr : list site) : list string := site_name <$> tr.

(** The parameter domain of each family. *)
Definition valid (d : dist) : Prop :=
  match d with
  | BernoulliD p => 0 <= p /\ p <= 1
  | NormalD _ scale => 0 < scale
  end.

Definition validb (d : dist) : bool :=
  match d with
  | BernoulliD p => Qle_bool 0 p && Qle_bool p 1
  | NormalD _ scale => negb (Qle_bool scale 0)
  end.

(** The support of each family: a Bernoulli draw is 1 (possible when
    [0 < p]) or 0 (possible when [p < 1]); a Normal draw is any number. *)
Definition in_support (d : dist) (v : Q) : Prop :=
  match d with
  | BernoulliD p => (v == 1 /\ 0 < p) \/ (v == 0 /\ p < 1)
  | NormalD _ _ => True
  end.

(** ** The random source

    The tensor library's generator is an opaque capability: a seeding
    operation and, for a distribution, a draw that advances the stream. *)
Class RandomSource (rng : Type) : Type := {
  set_rng_seed : Z → rng;
  draw : dist → rng → Q * rng
}.

(** A source is sound when every draw from a valid distribution lies in
    the support of that distribution. *)
Definition SoundSource (rng : Type) `{RandomSource rng} : Prop :=
  ∀ (d : dist) (g : rng), valid d → in_support d (draw d g).1.

(** ** The monad of stochastic functions *)

Definition M (rng A : Type) : Type :=
  rng * list site → result A * (rng * list site).

Global Instance M_ret {rng} : MRet (M rng) := λ A a st, (Ok a, st).

Global Instance M_bind {rng} : MBind (M rng) := λ A B f m st,
  match m st with
  | (Ok a, st') => f a st'
  | (Err e, st') => (Err e, st')
  end.

Definition raise {rng A} (e : error) : M rng A := λ st, (Err e, st).

(** A top-level invocation starts from a fresh trace. *)
Definition run {rng A} (m : M rng A) (g : rng) : result A * (rng * list site) :=
  m (g, []).

(** [for _ in range(n): print(f())]: [n] top-level invocations in a row,
    each on a fresh trace, all on the one random stream. *)
Fixpoint repeat_run {rng A} (n : nat) (m : M rng A) (g : rng)
    : list (result A * list site) * rng :=
  match n with
  | O => ([], g)
  | S n' =>
      let '(r, (g', tr)) := run m g in
      let '(rs, g'') := repeat_run n' m g' in
      ((r, tr) :: rs, g'')
  end.

(** ** Tensor arithmetic

    The tensors of the notebook hold binary32 numbers: 24 bits of
    precision, infinities at exponent 128.  A binary32 number is a
    [spec_float] of the Standard Library's IEEE 754 specification. *)
Abbreviation float32 := SpecFloat.spec_float.

Definition f32_prec : Z := 24.
Definition f32_emax : Z := 128.

(** The binary32 number nearest to a rational, ties to even: the
    correctly rounded quotient of numerator and denominator.  On the value
    of a binary32 number it is that number. *)
Definition to_float32 (q : Q) : float32 :=
  let den := SpecFloat.S754_finite false (Qden q) 0 in
  match Qnum q with
  | Z0 => SpecFloat.S754_zero false
  | Zpos n => SpecFloat.SFdiv f32_prec f32_emax (SpecFloat.S754_finite false n 0) den
  | Zneg n => SpecFloat.SFdiv f32_prec f32_emax (SpecFloat.S754_finite true n 0) den
  end.

(** [a * b] on two tensors (external library): the IEEE 754 product of
    the two binary32 numbers, rounded to nearest even, infinite on
    overflow. *)
Definition tensor_mul (a b : Q) : float32 :=
  SpecFloat.SFmul f32_prec f32_emax (to_float32 a) (to_float32 b).

Section Models.
Context {rng : Type} `{RandomSource rng}.

Local Abbreviation M := (M rng).

(** *** Distribution constructors *)

(** Modelled from the spec: the constructors of [pyro.distributions]
    (external library).  A distribution constructed with parameters
    outside the family's valid domain fails with InvalidParameter. *)
Definition make_dist (d : dist) : M dist :=
  if validb d then mret d else raise InvalidParameter.

Definition Bernoulli (probs : Q) : M dist := make_dist (BernoulliD probs).
Definition Normal (loc scale : Q) : M dist := make_dist (NormalD loc scale).

(** *** The named sampler *)

(** Modelled from the spec: [pyro.sample(name, fn)] (external library).
    It draws one value from [fn] with the random source, records
    (name, fn, value) at the end of the current trace and returns the
    value; a name already present in the current trace is rejected with
    DuplicateName, before anything is drawn. *)
Definition sample (name : string) (fn : dist) : M Q := λ st,
  let '(g, tr) := st in
  if bool_decide (name ∈ names tr) then (Err DuplicateName, st)
  else let '(v, g') := draw fn g in
       (Ok v, (g', tr ++ [Site name fn v])).

(** [d[k]] on a dict with string keys. *)
Definition getitem (d : gmap string Q) (k : string) : M Q :=
  match d !! k with
  | Some v => mret v
  | None => raise KeyError
  end.

(** *** weather (lines 87-96) *)
Definition weather : M (string * Q) :=
  fn ← Bernoulli 0.3;
  cloudy ← sample "cloudy" fn;
  let cloudy : string := if Qeq_bool cloudy 1.0 then "cloudy" else "sunny" in
  mean_temp ← getitem {[ "cloudy" := 55.0; "sunny" := 75.0 ]} cloudy;
  scale_temp ← getitem {[ "cloudy" := 10.0; "sunny" := 15.0 ]} cloudy;
  fn ← Normal mean_temp scale_temp;
  temp ← sample "temp" fn;
  mret (cloudy, temp).

(** *** ice_cream_sales (lines 107-111) *)
Definition ice_cream_sales : M Q :=
  '(cloudy, temp) ← weather;
  let expected_sales :=
    if bool_decide (cloudy = "sunny") && negb (Qle_bool temp 80.0)
    then 200.0 else 50.0 in
  fn ← Normal expected_sales 10.0;
  ice_cream ← sample "ice_cream" fn;
  mret ice_cream.

(** *** geometric (lines 126-134)

    [fuel] is the number of nested calls the interpreter still allows:
    a recursive call with none left ends in RecursionLimitExceeded. *)
Fixpoint geometric (fuel : nat) (p : Q) (t : option Z) : M Z :=
  let t : Z := match t with None => 0%Z | Some t => t end in
  fn ← Bernoulli p;
  x ← sample ("x_" +:+ pretty t) fn;
  if Qeq_bool x 1 then mret 0%Z
  else match fuel with
       | O => raise RecursionLimitExceeded
       | S fuel' =>
           r ← geometric fuel' p (Some (t + 1)%Z);
           mret (1 + r)%Z
       end.

(** *** normal_product and make_normal_normal (lines 143-154) *)
Definition normal_product (loc scale : Q) : M float32 :=
  fn ← Normal loc scale;
  z1 ← sample "z1" fn;
  fn ← Normal loc scale;
  z2 ← sample "z2" fn;
  let y := tensor_mul z1 z2 in
  mret y.

Definition make_normal_normal : M (Q → M float32) :=
  fn ← Normal 0 1;
  mu_latent ← sample "mu_laten" fn;
  let fn := λ scale, normal_product mu_latent scale in
  mret fn.

(** [make_normal_normal()(scale)] (line 156). *)
Definition make_normal_normal_call (scale : Q) : M float32 :=
  fn ← make_normal_normal;
  fn scale.

End Models.

(** ** The first weather model (lines 58-67)

    Before the notebook moves to [pyro.sample] it defines [weather] on
    [torch.distributions] alone: the same computation, with the two draws
    made by the distribution objects themselves and no name given. *)
Section TorchModels.
Context {rng : Type} `{RandomSource rng}.

(** Modelled from the spec: the sampling operation of a distribution
    object, [fn.sample()] and [fn.rsample()] (external library).  It draws
    one value from [fn] with the random source; nothing is recorded. *)
Definition dist_sample (fn : dist) : M rng Q := λ st,
  let '(g, tr) := st in
  let '(v, g') := draw fn g in
  (Ok v, (g', tr)).

Definition weather_torch : M rng (string * Q) :=
  fn ← Bernoulli 0.3;
  cloudy ← dist_sample fn;
  let cloudy : string := if Qeq_bool cloudy 1.0 then "cloudy" else "sunny" in
  mean_temp ← getitem {[ "cloudy" := 55.0; "sunny" := 75.0 ]} cloudy;
  scale_temp ← getitem {[ "cloudy" := 10.0; "sunny" := 15.0 ]} cloudy;
  fn ← Normal mean_temp scale_temp;
  temp ← dist_sample fn;
  mret (cloudy, temp).

End TorchModels.

(** A stochastic function is append-only when, from every state, the
    trace it leaves extends the trace it found. *)
Definition append_only {rng A} (m : M rng A) : Prop :=
  ∀ (g : rng) (tr : list site), tr `prefix_of` (m (g, tr)).2.2.

(** ** Vocabulary of the properties

    The stream of draws seen from a state of the random source, and the
    names and sites that [geometric] produces along it. *)

(** The name of the sample site at recursion depth [t]. *)
Definition x_name (t : Z) : string := "x_" +:+ pretty t.

(** The names of [n] successive depths from [t] on. *)
Fixpoint x_names (t : Z) (n : nat) : list string :=
  match n with
  | O => []
  | S n' => x_name t :: x_names (t + 1) n'
  end.

Section Stream.
Context {rng : Type} `{RandomSource rng}.

(** The state of the random source after [n] draws from [d]. *)
Fixpoint after_draws (d : dist) (n : nat) (g : rng) : rng :=
  match n with
  | O => g
  | S n' => after_draws d n' (draw d g).2
  end.

(** The value of draw number [n] (from 0) in a run of draws from [d]. *)
Definition nth_draw (d : dist) (n : nat) (g : rng) : Q :=
  (draw d (after_draws d n g)).1.

(** The sites recorded by [n] successive Bernoulli(p) draws named from
    depth [t] on. *)
Fixpoint x_sites (p : Q) (t : Z) (n : nat) (g : rng) : list site :=
  match n with
  | O => []
  | S n' =>
      Site (x_name t) (BernoulliD p) (draw (BernoulliD p) g).1
      :: x_sites p (t + 1) n' (draw (BernoulliD p) g).2
  end.

(** The stream state a top-level call of [weather] leaves behind. *)
Definition weather_advance (g : rng) : rng := (run weather g).2.1.

End Stream.

(** ** A concrete random source

    A linear congruential generator, used to run the models on concrete
    inputs.  The uniform draw is [state / 2^31]; a Bernoulli draw is 1
    when the uniform draw is below [p]; a Normal draw is an affine image
    of the uniform draw (a crude stand-in for the Gaussian: only the
    support matters here). *)
Module Lcg.

Definition modulus : Z := 2147483648.

Definition next (s : Z) : Z := ((1103515245 * s + 12345) mod modulus)%Z.

Definition uniform (s : Z) : Q := Qmake s 2147483648.

Definition lcg_draw (d : dist) (s : Z) : Q * Z :=
  let s' := next s in
  let u := uniform s' in
  match d with
  | BernoulliD p => (if Qle_bool p u then 0 else 1, s')
  | NormalD loc scale => (loc + scale * (12 * u - 6), s')
  end.

#[global] Instance lcg_source : RandomSource Z := {|
  set_rng_seed := λ seed, (seed mod modulus)%Z;
  draw := lcg_draw
|}.

End Lcg.

(** ** The product of tensors on concrete numbers *)

Example to_float32_third :
  to_float32 (1 # 3) = SpecFloat.S754_finite false 11184811 (-25).
Proof. reflexivity. Qed.

Example to_float32_tenth :
  to_float32 0.1 = SpecFloat.S754_finite false 13421773 (-27).
Proof. reflexivity. Qed.

Example to_float32_tie_to_even :
  to_float32 (16777217 # 1) = SpecFloat.S754_finite false 8388608 1
  ∧ to_float32 (16777219 # 1) = SpecFloat.S754_finite false 8388610 1.
Proof. split; reflexivity. Qed.

Example to_float32_keeps_binary32 :
  to_float32 (15828903 # 4194304) = SpecFloat.S754_finite false 15828903 (-22).
Proof. reflexivity. Qed.

Example tensor_mul_exact :
  tensor_mul 1.5 2 = SpecFloat.S754_finite false 12582912 (-22).
Proof. reflexivity. Qed.

Example tensor_mul_rounds :
  tensor_mul (16777215 # 1) (16777215 # 1)
  = SpecFloat.S754_finite false 16777214 24.
Proof. vm_compute. reflexivity. Qed.

Example tensor_mul_negative_zero :
  tensor_mul (-1) 0 = SpecFloat.S754_zero true.
Proof. reflexivity. Qed.

Example tensor_mul_overflow :
  tensor_mul (340282346638528859811704183484516925440 # 1) 2
  = SpecFloat.S754_infinity false.
Proof. vm_compute. reflexivity. Qed.

(** ** Basic facts about the monad, the constructors and the sampler *)

Lemma validb_true (d : dist) : validb d = true ↔ valid d.
Proof.
  destruct d as [p | loc scale]; simpl.
  - rewrite andb_true_iff, !Qle_bool_iff. tauto.
  - rewrite negb_true_iff, <- not_true_iff_false, Qle_bool_iff.
    split; [apply Qnot_le_lt | apply Qlt_not_le].
Qed.

Lemma validb_false (d : dist) : validb d = false ↔ ¬ valid d.
Proof. rewrite <- validb_true. destruct (validb d); intuition congruence. Qed.

Section Basics.
Context {rng : Type} `{RandomSource rng}.

Lemma bind_unfold {A B} (m : M rng A) (f : A → M rng B) (st : rng * list site) :
  (m ≫= f) st =
  match m st with
  | (Ok a, st') => f a st'
  | (Err e, st') => (Err e, st')
  end.
Proof. reflexivity. Qed.

Lemma bind_ok {A B} (m : M rng A) (f : A → M rng B) st a st' :
  m st = (Ok a, st') → (m ≫= f) st = f a st'.
Proof. intros Hm. rewrite bind_unfold, Hm. reflexivity. Qed.

Lemma bind_err {A B} (m : M rng A) (f : A → M rng B) st e st' :
  m st = (Err e, st') → (m ≫= f) st = (Err e, st').
Proof. intros Hm. rewrite bind_unfold, Hm. reflexivity. Qed.

Lemma make_dist_ok (d : dist) (st : rng * list site) :
  valid d → make_dist d st = (Ok d, st).
Proof. intros Hd. unfold make_dist. apply validb_true in Hd. rewrite Hd. reflexivity. Qed.

Lemma make_dist_err (d : dist) (st : rng * list site) :
  ¬ valid d → make_dist d st = (Err InvalidParameter, st).
Proof. intros Hd. unfold make_dist. apply validb_false in Hd. rewrite Hd. reflexivity. Qed.

Lemma sample_fresh (name : string) (fn : dist) (g : rng) (tr : list site) :
  name ∉ names tr →
  sample name fn (g, tr) =
  (Ok (draw fn g).1, ((draw fn g).2, tr ++ [Site name fn (draw fn g).1])).
Proof.
  intros Hn. unfold sample. rewrite bool_decide_eq_false_2 by exact Hn.
  destruct (draw fn g); reflexivity.
Qed.

Lemma sample_dup (name : string) (fn : dist) (g : rng) (tr : list site) :
  name ∈ names tr → sample name fn (g, tr) = (Err DuplicateName, (g, tr)).
Proof. intros Hn. unfold sample. rewrite bool_decide_eq_true_2 by exact Hn. reflexivity. Qed.

Lemma getitem_ok (d : gmap string Q) (k : string) (v : Q) (st : rng * list site) :
  d !! k = Some v → getitem d k st = (Ok v, st).
Proof. intros Hk. unfold getitem. rewrite Hk. reflexivity. Qed.

Lemma getitem_err (d : gmap string Q) (k : string) (st : rng * list site) :
  d !! k = None → getitem d k st = (Err KeyError, st).
Proof. intros Hk. unfold getitem. rewrite Hk. reflexivity. Qed.

Lemma names_snoc (tr : list site) (s : site) :
  names (tr ++ [s]) = names tr ++ [site_name s].
Proof. unfold names. rewrite fmap_app. reflexivity. Qed.

End Basics.

(** ** weather and ice_cream_sales *)

Ltac q_closed := cbv [valid]; repeat split; unfold Qle, Qlt; simpl; lia.

Section Weather.
Context {rng : Type} `{RandomSource rng}.

Lemma mean_temp_lookup (b : bool) :
  ({[ "cloudy" := 55.0; "sunny" := 75.0 ]} : gmap string Q)
    !! (if b then "cloudy" else "sunny" : string)
  = Some (if b then 55.0 else 75.0).
Proof. destruct b; reflexivity. Qed.

Lemma scale_temp_lookup (b : bool) :
  ({[ "cloudy" := 10.0; "sunny" := 15.0 ]} : gmap string Q)
    !! (if b then "cloudy" else "sunny" : string)
  = Some (if b then 10.0 else 15.0).
Proof. destruct b; reflexivity. Qed.

(** What one call of [weather] does on a trace that holds neither of its
    two names. *)
Lemma weather_on (g : rng) (tr : list site) :
  "cloudy" ∉ names tr → "temp" ∉ names tr →
  let c := (draw (BernoulliD 0.3) g).1 in
  let g1 := (draw (BernoulliD 0.3) g).2 in
  let fn := NormalD (if Qeq_bool c 1.0 then 55.0 else 75.0)
                    (if Qeq_bool c 1.0 then 10.0 else 15.0) in
  weather (g, tr) =
  (Ok (if Qeq_bool c 1.0 then "cloudy" else "sunny", (draw fn g1).1),
   ((draw fn g1).2,
    tr ++ [Site "cloudy" (BernoulliD 0.3) c; Site "temp" fn (draw fn g1).1])).
Proof.
  intros Hc Ht c g1 fn. unfold weather, Bernoulli, Normal.
  assert (Hv : valid (BernoulliD 0.3)) by q_closed.
  rewrite (bind_ok _ _ _ _ _ (make_dist_ok _ (g, tr) Hv)).
  rewrite (bind_ok _ _ _ _ _ (sample_fresh _ _ _ _ Hc)).
  fold c g1. cbv zeta.
  rewrite (bind_ok _ _ _ _ _ (getitem_ok _ _ _ _ (mean_temp_lookup _))).
  rewrite (bind_ok _ _ _ _ _ (getitem_ok _ _ _ _ (scale_temp_lookup _))).
  assert (Hn : valid fn) by (unfold fn; destruct (Qeq_bool c 1.0); q_closed).
  rewrite (bind_ok _ _ _ _ _ (make_dist_ok _ _ Hn)).
  assert (Ht' : "temp" ∉ names (tr ++ [Site "cloudy" (BernoulliD 0.3) c])).
  { rewrite names_snoc, elem_of_app, list_elem_of_singleton. simpl.
    intros [?|?]; [tauto | discriminate]. }
  rewrite (bind_ok _ _ _ _ _ (sample_fresh _ _ _ _ Ht')).
  rewrite <- app_assoc. reflexivity.
Qed.
Lemma weather_run (g : rng) :
  let c := (draw (BernoulliD 0.3) g).1 in
  let g1 := (draw (BernoulliD 0.3) g).2 in
  let fn := NormalD (if Qeq_bool c 1.0 then 55.0 else 75.0)
                    (if Qeq_bool c 1.0 then 10.0 else 15.0) in
  run weather g =
  (Ok (if Qeq_bool c 1.0 then "cloudy" else "sunny", (draw fn g1).1),
   ((draw fn g1).2,
    [Site "cloudy" (BernoulliD 0.3) c; Site "temp" fn (draw fn g1).1])).
Proof.
  intros c g1 fn. unfold run.
  rewrite weather_on by (unfold names; simpl; apply not_elem_of_nil).
  reflexivity.
Qed.

(** What one call of [ice_cream_sales] does on a fresh trace. *)
Lemma ice_cream_sales_run (g : rng) (cloudy : string) (temp : Q) (g2 : rng)
    (tr : list site) :
  run weather g = (Ok (cloudy, temp), (g2, tr)) →
  names tr = ["cloudy"; "temp"] →
  let fn := NormalD (if bool_decide (cloudy = "sunny") && negb (Qle_bool temp 80.0)
                     then 200.0 else 50.0) 10.0 in
  run ice_cream_sales g =
  (Ok (draw fn g2).1, ((draw fn g2).2, tr ++ [Site "ice_cream" fn (draw fn g2).1])).
Proof.
  intros Hw Hn fn. unfold run, ice_cream_sales, Normal in *.
  rewrite (bind_ok _ _ _ _ _ Hw).
  assert (Hv : valid fn)
    by (unfold fn; destruct (bool_decide _ && negb _); q_closed).
  rewrite (bind_ok _ _ _ _ _ (make_dist_ok _ _ Hv)).
  assert (Hi : "ice_cream" ∉ names tr).
  { rewrite Hn. rewrite !elem_of_cons. intros [?|[?|?%elem_of_nil]]; done. }
  rewrite (bind_ok _ _ _ _ _ (sample_fresh _ _ _ _ Hi)). reflexivity.
Qed.

(** Two calls of [weather] inside one trace collide on the name
    ['cloudy']: it is the fresh trace of each top-level call that makes
    the static names reusable. *)
Lemma weather_twice_one_trace (g : rng) :
  ∃ st, run (weather ≫= λ _, weather) g = (Err DuplicateName, st).
Proof.
  unfold run. eexists.
  rewrite (bind_ok _ _ _ _ _ (weather_run g)).
  unfold weather, Bernoulli.
  assert (Hv : valid (BernoulliD 0.3)) by q_closed.
  rewrite (bind_ok _ _ _ _ _ (make_dist_ok _ _ Hv)).
  apply bind_err, sample_dup. unfold names. simpl. apply list_elem_of_here.
Qed.

End Weather.

(** ** geometric *)

Lemma x_name_inj (t1 t2 : Z) : x_name t1 = x_name t2 → t1 = t2.
Proof.
  unfold x_name. simpl. intros Heq. injection Heq as Heq.
  exact (pretty_Z_inj _ _ Heq).
Qed.

Lemma elem_of_x_names (s : string) (t : Z) (n : nat) :
  s ∈ x_names t n ↔ ∃ j : Z, (t <= j < t + Z.of_nat n)%Z ∧ s = x_name j.
Proof.
  revert t. induction n as [|n IH]; intros t; simpl.
  - rewrite elem_of_nil. split; [tauto | intros (j & Hj & _); lia].
  - rewrite elem_of_cons, IH. split.
    + intros [-> | (j & Hj & ->)]; [exists t | exists j]; split; auto; lia.
    + intros (j & Hj & ->). destruct (decide (j = t)) as [-> | Hne]; [by left |].
      right. exists j. split; [lia | done].
Qed.

Lemma x_names_NoDup (t : Z) (n : nat) : NoDup (x_names t n).
Proof.
  revert t. induction n as [|n IH]; intros t; simpl; constructor; [| apply IH].
  rewrite elem_of_x_names. intros (j & Hj & Heq%x_name_inj). lia.
Qed.

Lemma x_names_snoc (t : Z) (n : nat) :
  x_names t (S n) = x_names t n ++ [x_name (t + Z.of_nat n)].
Proof.
  revert t. induction n as [|n IH]; intros t.
  - simpl. by rewrite Z.add_0_r.
  - change (x_names t (S (S n))) with (x_name t :: x_names (t + 1) (S n)).
    rewrite IH.
    replace (t + 1 + Z.of_nat n)%Z with (t + Z.of_nat (S n))%Z by lia.
    reflexivity.
Qed.

Lemma x_names_length (t : Z) (n : nat) : length (x_names t n) = n.
Proof. revert t. induction n as [|n IH]; intros t; simpl; [done | by rewrite IH]. Qed.

Section GeometricRuns.
Context {rng : Type} `{RandomSource rng}.

Lemma names_x_sites (p : Q) (t : Z) (n : nat) (g : rng) :
  names (x_sites p t n g) = x_names t n.
Proof.
  revert t g. induction n as [|n IH]; intros t g; [done |].
  unfold names in *. simpl. by rewrite IH.
Qed.

Lemma x_sites_values (p : Q) (t : Z) (n : nat) (g : rng) :
  site_value <$> x_sites p t n g
  = (λ i, nth_draw (BernoulliD p) i g) <$> seq 0 n.
Proof.
  revert t g. induction n as [|n IH]; intros t g; [done |].
  simpl. rewrite IH. f_equal. rewrite <- fmap_S_seq, <- list_fmap_compose.
  reflexivity.
Qed.

Lemma geometric_None (fuel : nat) (p : Q) :
  geometric fuel p None = geometric fuel p (Some 0%Z).
Proof. destruct fuel; reflexivity. Qed.

(** One unfolding of [geometric], at a depth whose name is free. *)
Lemma geometric_unfold (fuel : nat) (p : Q) (t : Z) (g : rng) (tr : list site) :
  valid (BernoulliD p) → x_name t ∉ names tr →
  let v := (draw (BernoulliD p) g).1 in
  let st' := ((draw (BernoulliD p) g).2, tr ++ [Site (x_name t) (BernoulliD p) v]) in
  geometric fuel p (Some t) (g, tr) =
  if Qeq_bool v 1 then (Ok 0%Z, st')
  else match fuel with
       | O => (Err RecursionLimitExceeded, st')
       | S fuel' => (geometric fuel' p (Some (t + 1)%Z) ≫= λ r, mret (1 + r)%Z) st'
       end.
Proof.
  intros Hp Hn v st'.
  destruct fuel; simpl geometric; unfold Bernoulli;
    rewrite (bind_ok _ _ _ _ _ (make_dist_ok _ _ Hp));
    rewrite (bind_ok _ _ _ _ _ (sample_fresh _ _ _ _ Hn));
    fold v; destruct (Qeq_bool v 1); reflexivity.
Qed.

(** Recording the site of depth [t] keeps the names of deeper depths free. *)
Lemma x_name_fresh_step (t : Z) (tr : list site) (fn : dist) (v : Q) :
  (∀ j, (t <= j)%Z → x_name j ∉ names tr) →
  ∀ j, (t + 1 <= j)%Z → x_name j ∉ names (tr ++ [Site (x_name t) fn v]).
Proof.
  intros Hfree j Hj. rewrite names_snoc, elem_of_app, list_elem_of_singleton.
  simpl. intros [Hin | Heq%x_name_inj]; [| lia].
  apply (Hfree j); [lia | exact Hin].
Qed.

(** The first success is at draw number [k] and the limit allows [k]
    nested calls: [geometric] returns [k]. *)
Lemma geometric_success (k fuel : nat) (p : Q) (t : Z) (g : rng) (tr : list site) :
  valid (BernoulliD p) →
  (∀ j, (t <= j)%Z → x_name j ∉ names tr) →
  (k ≤ fuel)%nat →
  (∀ i, (i < k)%nat → Qeq_bool (nth_draw (BernoulliD p) i g) 1 = false) →
  Qeq_bool (nth_draw (BernoulliD p) k g) 1 = true →
  geometric fuel p (Some t) (g, tr) =
  (Ok (Z.of_nat k),
   (after_draws (BernoulliD p) (S k) g, tr ++ x_sites p t (S k) g)).
Proof.
  intros Hp. revert fuel t g tr.
  induction k as [|k IH]; intros fuel t g tr Hfree Hle Hfail Hsucc.
  - rewrite geometric_unfold by (auto; apply Hfree; lia).
    unfold nth_draw in Hsucc. simpl in Hsucc. rewrite Hsucc. reflexivity.
  - destruct fuel as [|fuel]; [lia |].
    rewrite geometric_unfold by (auto; apply Hfree; lia).
    pose proof (Hfail O ltac:(lia)) as H0. unfold nth_draw in H0. simpl in H0.
    rewrite H0.
    rewrite (bind_ok _ _ _ _ _
               (IH fuel (t + 1)%Z _ _ (x_name_fresh_step _ _ _ _ Hfree)
                   ltac:(lia) (λ i Hi, Hfail (S i) ltac:(lia)) Hsucc)).
    unfold mret, M_ret. rewrite <- app_assoc. simpl.
    do 2 f_equal. lia.
Qed.

(** No success among the first [fuel + 1] draws: the recursion runs into
    the limit, after [fuel + 1] draws. *)
Lemma geometric_exhausts (fuel : nat) (p : Q) (t : Z) (g : rng) (tr : list site) :
  valid (BernoulliD p) →
  (∀ j, (t <= j)%Z → x_name j ∉ names tr) →
  (∀ i, (i ≤ fuel)%nat → Qeq_bool (nth_draw (BernoulliD p) i g) 1 = false) →
  geometric fuel p (Some t) (g, tr) =
  (Err RecursionLimitExceeded,
   (after_draws (BernoulliD p) (S fuel) g, tr ++ x_sites p t (S fuel) g)).
Proof.
  intros Hp. revert t g tr.
  induction fuel as [|fuel IH]; intros t g tr Hfree Hfail;
    rewrite geometric_unfold by (auto; apply Hfree; lia);
    pose proof (Hfail O ltac:(lia)) as H0; unfold nth_draw in H0; simpl in H0;
    rewrite H0.
  - reflexivity.
  - rewrite (bind_err _ _ _ _ _
               (IH (t + 1)%Z _ _ (x_name_fresh_step _ _ _ _ Hfree)
                   (λ i Hi, Hfail (S i) ltac:(lia)))).
    rewrite <- app_assoc. reflexivity.
Qed.

(** Whatever the parameter and the draws, a call of [geometric] at depth
    [t] extends the trace by sites named after the successive depths
    from [t] on, and never ends in DuplicateName. *)
Lemma geometric_names (fuel : nat) (p : Q) (t : Z) (g : rng) (tr : list site) :
  (∀ j, (t <= j)%Z → x_name j ∉ names tr) →
  ∃ n : nat,
    (n ≤ S fuel)%nat ∧
    names (geometric fuel p (Some t) (g, tr)).2.2 = names tr ++ x_names t n ∧
    (geometric fuel p (Some t) (g, tr)).1 ≠ Err DuplicateName.
Proof.
  revert t g tr. induction fuel as [|fuel IH]; intros t g tr Hfree.
  - destruct (validb (BernoulliD p)) eqn:Hv.
    + apply validb_true in Hv.
      rewrite geometric_unfold by (auto; apply Hfree; lia).
      exists 1%nat. destruct (Qeq_bool _ 1); simpl;
        rewrite names_snoc; repeat split; auto; discriminate.
    + apply validb_false in Hv. exists O. simpl geometric. unfold Bernoulli.
      rewrite (bind_err _ _ _ _ _ (make_dist_err _ _ Hv)). simpl.
      rewrite app_nil_r. repeat split; auto; discriminate.
  - destruct (validb (BernoulliD p)) eqn:Hv.
    + apply validb_true in Hv.
      rewrite geometric_unfold by (auto; apply Hfree; lia).
      destruct (Qeq_bool _ 1).
      * exists 1%nat. simpl. rewrite names_snoc.
        repeat split; auto; try lia; try discriminate.
      * destruct (IH (t + 1)%Z (draw (BernoulliD p) g).2 _
                    (x_name_fresh_step t tr (BernoulliD p)
                       (draw (BernoulliD p) g).1 Hfree))
          as (n & Hn & Hnames & Hdup).
        exists (S n). rewrite bind_unfold.
        destruct (geometric fuel p (Some (t + 1)%Z) _) as [[r | e] [g' tr']];
          simpl in *; rewrite Hnames, names_snoc, <- app_assoc;
          repeat split; auto; try lia; try discriminate.
    + apply validb_false in Hv. exists O. simpl geometric. unfold Bernoulli.
      rewrite (bind_err _ _ _ _ _ (make_dist_err _ _ Hv)). simpl.
      rewrite app_nil_r. repeat split; auto; try lia; try discriminate.
Qed.

End GeometricRuns.

(** ** normal_product and make_normal_normal *)

Section HigherOrder.
Context {rng : Type} `{RandomSource rng}.

Lemma normal_product_on (loc scale : Q) (g : rng) (tr : list site) :
  0 < scale → "z1" ∉ names tr → "z2" ∉ names tr →
  let fn := NormalD loc scale in
  let z1 := (draw fn g).1 in
  let g1 := (draw fn g).2 in
  let z2 := (draw fn g1).1 in
  normal_product loc scale (g, tr) =
  (Ok (tensor_mul z1 z2),
   ((draw fn g1).2, tr ++ [Site "z1" fn z1; Site "z2" fn z2])).
Proof.
  intros Hs H1 H2 fn z1 g1 z2. unfold normal_product, Normal.
  assert (Hv : valid fn) by exact Hs.
  rewrite (bind_ok _ _ _ _ _ (make_dist_ok _ _ Hv)).
  rewrite (bind_ok _ _ _ _ _ (sample_fresh _ _ _ _ H1)).
  rewrite (bind_ok _ _ _ _ _ (make_dist_ok _ _ Hv)).
  assert (H2' : "z2" ∉ names (tr ++ [Site "z1" fn z1])).
  { rewrite names_snoc, elem_of_app, list_elem_of_singleton. simpl.
    intros [?|?]; [tauto | discriminate]. }
  rewrite (bind_ok _ _ _ _ _ (sample_fresh _ _ _ _ H2')).
  rewrite <- app_assoc. reflexivity.
Qed.

Lemma normal_product_invalid (loc scale : Q) (st : rng * list site) :
  scale <= 0 → normal_product loc scale st = (Err InvalidParameter, st).
Proof.
  intros Hs. unfold normal_product, Normal.
  apply bind_err, make_dist_err. simpl. by apply Qle_not_lt.
Qed.

Lemma make_normal_normal_on (g : rng) (tr : list site) :
  "mu_laten" ∉ names tr →
  let mu_latent := (draw (NormalD 0 1) g).1 in
  make_normal_normal (g, tr) =
  (Ok (λ scale, normal_product mu_latent scale),
   ((draw (NormalD 0 1) g).2, tr ++ [Site "mu_laten" (NormalD 0 1) mu_latent])).
Proof.
  intros Hn mu_latent. unfold make_normal_normal, Normal.
  assert (Hv : valid (NormalD 0 1)) by q_closed.
  rewrite (bind_ok _ _ _ _ _ (make_dist_ok _ _ Hv)).
  rewrite (bind_ok _ _ _ _ _ (sample_fresh _ _ _ _ Hn)). reflexivity.
Qed.

End HigherOrder.

(** ** The concrete source is sound *)

Lemma lcg_next_range (s : Z) : (0 <= Lcg.next s < Lcg.modulus)%Z.
Proof. unfold Lcg.next. apply Z.mod_pos_bound. reflexivity. Qed.

Lemma lcg_uniform_range (s : Z) :
  (0 <= s < Lcg.modulus)%Z → 0 <= Lcg.uniform s ∧ Lcg.uniform s < 1.
Proof.
  unfold Lcg.modulus, Lcg.uniform, Qle, Qlt. simpl. lia.
Qed.

Lemma lcg_sound : SoundSource Z.
Proof.
  intros [p | loc scale] g Hv; simpl; [| exact I].
  destruct Hv as [H0 H1].
  destruct (lcg_uniform_range _ (lcg_next_range g)) as [Hu0 Hu1].
  destruct (Qle_bool p (Lcg.uniform (Lcg.next g))) eqn:Hle; simpl.
  - right. split; [reflexivity |].
    apply Qle_bool_iff in Hle. eapply Qle_lt_trans; eauto.
  - left. split; [reflexivity |].
    eapply Qle_lt_trans; [exact Hu0 |].
    apply Qnot_le_lt. intros Hp. apply Qle_bool_iff in Hp. congruence.
Qed.

(** ** Properties of geometric *)

Example x_name_0 : x_name 0 = "x_0".
Proof. reflexivity. Qed.

Example x_name_12 : x_name 12 = "x_12".
Proof. reflexivity. Qed.

Lemma Qeq_bool_false_iff (a b : Q) : Qeq_bool a b = false ↔ ¬ a == b.
Proof. rewrite <- Qeq_bool_iff. destruct (Qeq_bool a b); intuition congruence. Qed.

Lemma no_x_name_in_nil (t : Z) : ∀ j, (t <= j)%Z → x_name j ∉ names [].
Proof. intros j _. apply not_elem_of_nil. Qed.

Section GeometricProperties.
Context {rng : Type} `{RandomSource rng}.

Lemma geometric_default (fuel : nat) (p : Q) (t : option Z) :
  geometric fuel p t = geometric fuel p (Some (default 0%Z t)).
Proof. destruct t; [reflexivity | apply geometric_None]. Qed.

(** C1: for a probability [0 <= p <= 1], [geometric(p)] returns the
    number of failed Bernoulli(p) trials before the first success.  The
    draws are made at the successive depths 0, 1, 2, ...; when draw
    number [k] is the first whose value is 1 (and the recursion limit
    allows [k] nested calls) the call returns [k], having recorded the
    [k + 1] sites [x_0 .. x_k] and advanced the stream by [k + 1]
    draws.  The same holds from an explicit start depth [t], the count
    being relative to it. *)
Theorem geometric_counts_failures (p : Q) (t : option Z) (fuel k : nat) (g : rng) :
  0 <= p ∧ p <= 1 →
  (k ≤ fuel)%nat →
  (∀ i, (i < k)%nat → ¬ nth_draw (BernoulliD p) i g == 1) →
  nth_draw (BernoulliD p) k g == 1 →
  run (geometric fuel p t) g =
  (Ok (Z.of_nat k),
   (after_draws (BernoulliD p) (S k) g, x_sites p (default 0%Z t) (S k) g)).
Proof.
  intros Hp Hk Hfail Hsucc. unfold run. rewrite geometric_default.
  rewrite (geometric_success k fuel p _ g [] Hp (no_x_name_in_nil _) Hk).
  - reflexivity.
  - intros i Hi. apply Qeq_bool_false_iff, Hfail, Hi.
  - apply Qeq_bool_iff, Hsucc.
Qed.

Lemma bernoulli_one_draw (g : rng) :
  SoundSource rng → (draw (BernoulliD 1) g).1 == 1.
Proof.
  intros Hs. destruct (Hs (BernoulliD 1) g ltac:(q_closed)) as [[Hv _] | [_ Hlt]].
  - exact Hv.
  - exfalso. revert Hlt. unfold Qlt. simpl. lia.
Qed.

Lemma bernoulli_zero_draw (g : rng) :
  SoundSource rng → (draw (BernoulliD 0) g).1 == 0.
Proof.
  intros Hs. destruct (Hs (BernoulliD 0) g ltac:(q_closed)) as [[_ Hlt] | [Hv _]].
  - exfalso. revert Hlt. unfold Qlt. simpl. lia.
  - exact Hv.
Qed.

(** C2: with [p = 1] the depth-0 draw is 1 on every run, so
    [geometric(1)] returns 0 from the first call: one site, [x_0], is
    recorded and no recursive call is made, whatever the recursion
    limit. *)
Theorem geometric_one_returns_zero (fuel : nat) (g : rng) :
  SoundSource rng →
  run (geometric fuel 1 None) g =
  (Ok 0%Z,
   ((draw (BernoulliD 1) g).2,
    [Site "x_0" (BernoulliD 1) (draw (BernoulliD 1) g).1])).
Proof.
  intros Hs. unfold run. rewrite geometric_None.
  rewrite (geometric_success O fuel 1 0 g [] ltac:(q_closed) (no_x_name_in_nil _)).
  - reflexivity.
  - lia.
  - intros i Hi. lia.
  - apply Qeq_bool_iff. unfold nth_draw. simpl. apply bernoulli_one_draw, Hs.
Qed.

Lemma x_sites_zero_values (t : Z) (n : nat) (g : rng) :
  SoundSource rng → Forall (λ s, site_value s == 0) (x_sites 0 t n g).
Proof.
  intros Hs. revert t g. induction n as [|n IH]; intros t g; simpl; constructor.
  - simpl. apply bernoulli_zero_draw, Hs.
  - apply IH.
Qed.

(** C3: with [p = 0] every draw is 0, so for every depth limit [D] the
    recursion goes through the depths [0 .. D] without returning and
    fails on the call that would open depth [D + 1]: no bound on the
    depth makes [geometric(0)] return. *)
Theorem geometric_zero_exceeds_every_bound (D : nat) (g : rng) :
  SoundSource rng →
  run (geometric D 0 None) g =
  (Err RecursionLimitExceeded,
   (after_draws (BernoulliD 0) (S D) g, x_sites 0 0 (S D) g))
  ∧ names (x_sites 0 0 (S D) g) = x_names 0 (S D)
  ∧ length (x_sites 0 0 (S D) g) = S D
  ∧ Forall (λ s, site_value s == 0) (x_sites 0 0 (S D) g).
Proof.
  intros Hs. split; [| split; [| split]].
  - unfold run. rewrite geometric_None.
    rewrite (geometric_exhausts D 0 0 g [] ltac:(q_closed) (no_x_name_in_nil _)).
    + reflexivity.
    + intros i _. apply Qeq_bool_false_iff. unfold nth_draw.
      rewrite (bernoulli_zero_draw _ Hs). discriminate.
  - apply names_x_sites.
  - rewrite <- (length_fmap site_name). fold (names (x_sites 0 0 (S D) g)).
    rewrite names_x_sites. apply x_names_length.
  - apply x_sites_zero_values, Hs.
Qed.

(** C4: within one top-level invocation of [geometric] every sampling
    call uses its own name.  The name of depth [t] is "x_" followed by
    the decimal rendering of [t]; distinct depths have distinct names;
    the names recorded by a run are those of successive depths, without
    repetition, and the run never ends in DuplicateName. *)
Theorem geometric_names_distinct (fuel : nat) (p : Q) (t : option Z) (g : rng) :
  (∀ d : Z, x_name d = "x_" +:+ pretty d)
  ∧ Inj (=) (=) x_name
  ∧ (∃ n : nat, names (run (geometric fuel p t) g).2.2 = x_names (default 0%Z t) n)
  ∧ NoDup (names (run (geometric fuel p t) g).2.2)
  ∧ (run (geometric fuel p t) g).1 ≠ Err DuplicateName.
Proof.
  split; [reflexivity |]. split; [exact x_name_inj |].
  unfold run. rewrite geometric_default.
  destruct (geometric_names fuel p (default 0%Z t) g [] (no_x_name_in_nil _))
    as (n & _ & Hn & Hdup).
  simpl in Hn. split; [eauto |]. split; [| exact Hdup].
  rewrite Hn. apply x_names_NoDup.
Qed.

End GeometricProperties.

(** ** Properties of the whole notebook *)

Section NotebookProperties.
Context {rng : Type} `{RandomSource rng}.

(** C6: between two sampling calls the computation is a deterministic
    function of the first sample.  In [weather] the 'temp' draw is from
    Normal(55, 10) when the 'cloudy' draw equals 1 and from
    Normal(75, 15) otherwise; in [ice_cream_sales] the 'ice_cream' draw
    has mean 200 when [weather] returned ('sunny', temp) with
    [temp > 80] and mean 50 in every other case, and scale 10. *)
Theorem params_follow_first_draw (g : rng) :
  let c := (draw (BernoulliD 0.3) g).1 in
  let g1 := (draw (BernoulliD 0.3) g).2 in
  ∃ (fn fn' : dist) (cloudy : string),
    let temp := (draw fn g1).1 in
    let g2 := (draw fn g1).2 in
    let tr := [Site "cloudy" (BernoulliD 0.3) c; Site "temp" fn temp] in
    run weather g = (Ok (cloudy, temp), (g2, tr))
    ∧ (c == 1.0 → fn = NormalD 55.0 10.0 ∧ cloudy = "cloudy")
    ∧ (¬ c == 1.0 → fn = NormalD 75.0 15.0 ∧ cloudy = "sunny")
    ∧ run ice_cream_sales g =
      (Ok (draw fn' g2).1,
       ((draw fn' g2).2, tr ++ [Site "ice_cream" fn' (draw fn' g2).1]))
    ∧ (cloudy = "sunny" ∧ 80.0 < temp → fn' = NormalD 200.0 10.0)
    ∧ (¬ (cloudy = "sunny" ∧ 80.0 < temp) → fn' = NormalD 50.0 10.0).
Proof.
  intros c g1. pose proof (weather_run g) as Hw. cbv zeta in Hw. fold c g1 in Hw.
  eexists _, _, _. cbv zeta.
  split; [exact Hw |].
  split; [| split].
  - intros Hc%Qeq_bool_iff. rewrite Hc. done.
  - intros Hc%Qeq_bool_false_iff. rewrite Hc. done.
  - split; [exact (ice_cream_sales_run g _ _ _ _ Hw eq_refl) |].
    split.
    + intros [Hs Ht]. rewrite bool_decide_eq_true_2 by exact Hs.
      apply Qlt_not_le in Ht. rewrite <- Qle_bool_iff in Ht.
      apply not_true_is_false in Ht. rewrite Ht. reflexivity.
    + intros Hn.
      destruct (bool_decide_reflect
                  ((if Qeq_bool c 1.0 then "cloudy" else "sunny" : string) = "sunny"))
        as [Hs | Hs]; [| reflexivity].
      destruct (Qle_bool _ 80.0) eqn:Hle; [reflexivity |].
      exfalso. apply Hn. split; [exact Hs |].
      apply Qnot_le_lt. intros Hle'%Qle_bool_iff. congruence.
Qed.

(** C7: a distribution constructed with parameters outside the domain
    of its family fails with InvalidParameter, and the failure reaches
    the caller unchanged.  [geometric(p)] with [p] outside [0, 1] fails
    at its first Bernoulli construction: nothing is drawn or recorded.
    [normal_product] with [scale <= 0] fails likewise at its first
    Normal construction, also when it is reached through the function
    returned by [make_normal_normal]: that call has then drawn
    'mu_laten' only. *)
Theorem invalid_parameter_surfaces (p loc scale : Q) (fuel : nat) (t : option Z)
    (st : rng * list site) (g : rng) :
  ¬ (0 <= p ∧ p <= 1) →
  scale <= 0 →
  Bernoulli p st = (Err InvalidParameter, st)
  ∧ Normal loc scale st = (Err InvalidParameter, st)
  ∧ geometric fuel p t st = (Err InvalidParameter, st)
  ∧ normal_product loc scale st = (Err InvalidParameter, st)
  ∧ run (make_normal_normal_call scale) g =
    (Err InvalidParameter,
     ((draw (NormalD 0 1) g).2,
      [Site "mu_laten" (NormalD 0 1) (draw (NormalD 0 1) g).1])).
Proof.
  intros Hp Hs.
  assert (Hb : Bernoulli p st = (Err InvalidParameter, st))
    by (apply make_dist_err; exact Hp).
  assert (Hn : ∀ st' : rng * list site,
             Normal loc scale st' = (Err InvalidParameter, st'))
    by (intros st'; apply make_dist_err; simpl; by apply Qle_not_lt).
  split; [exact Hb |]. split; [apply Hn |]. split; [| split].
  - destruct fuel; simpl geometric; apply bind_err, Hb.
  - apply normal_product_invalid, Hs.
  - unfold run, make_normal_normal_call.
    rewrite (bind_ok _ _ _ _ _
               (make_normal_normal_on g [] ltac:(apply not_elem_of_nil))).
    apply normal_product_invalid, Hs.
Qed.

Lemma repeat_run_weather (n : nat) (g : rng) :
  length (repeat_run n weather g).1 = n
  ∧ Forall (λ rt : result (string * Q) * list site,
              (∃ cloudy temp, rt.1 = Ok (cloudy, temp))
              ∧ names rt.2 = ["cloudy"; "temp"])
           (repeat_run n weather g).1
  ∧ (repeat_run n weather g).2 = Nat.iter n weather_advance g.
Proof.
  revert g. induction n as [|n IH]; intros g.
  - simpl. auto.
  - rewrite Nat.iter_succ_r. unfold weather_advance at 2.
    simpl repeat_run. pose proof (weather_run g) as Hw. cbv zeta in Hw.
    rewrite Hw. simpl.
    match goal with
    | |- context [repeat_run n weather ?g'] =>
        destruct (IH g') as (Hlen & Hall & Hfin);
        destruct (repeat_run n weather g') as [rs gn]
    end.
    simpl in *. split; [by rewrite Hlen |]. split; [| exact Hfin].
    constructor; [| exact Hall]. simpl. eauto.
Qed.

(** C8: the static names 'cloudy' and 'temp' can be reused across
    separate top-level invocations of [weather].  Every one of [n]
    calls in a row (five in the notebook) starts from a fresh trace, so
    each succeeds, none ends in DuplicateName, and each records its own
    pair of draws, taken where the previous call left the stream. *)
Theorem weather_names_reusable (n : nat) (g : rng) :
  length (repeat_run 5 weather g).1 = 5%nat
  ∧ Forall (λ rt : result (string * Q) * list site,
              (∃ cloudy temp, rt.1 = Ok (cloudy, temp))
              ∧ rt.1 ≠ Err DuplicateName
              ∧ names rt.2 = ["cloudy"; "temp"])
           (repeat_run n weather g).1
  ∧ length (repeat_run n weather g).1 = n
  ∧ (repeat_run n weather g).2 = Nat.iter n weather_advance g.
Proof.
  destruct (repeat_run_weather n g) as (Hlen & Hall & Hfin).
  split; [apply (repeat_run_weather 5 g) |].
  split; [| split; [exact Hlen | exact Hfin]].
  eapply Forall_impl; [exact Hall |].
  intros [r tr] [(cloudy & temp & Hr) Hn]. simpl in *.
  split; [eauto |]. split; [| exact Hn].
  rewrite Hr. discriminate.
Qed.

(** C9: [make_normal_normal] draws 'mu_laten' once, when it is itself
    called, and returns a function closed over the drawn value.  An
    application of that function to a scale [scale > 0], on a trace
    holding neither 'z1' nor 'z2', draws exactly two further samples,
    'z1' then 'z2', both from Normal(mu_latent, scale), and returns
    their product, as the multiplication of tensors computes it;
    'mu_laten' is not drawn again. *)
Theorem make_normal_normal_draws (g g' : rng) (tr : list site) (scale : Q) :
  0 < scale → "z1" ∉ names tr → "z2" ∉ names tr →
  let mu_latent := (draw (NormalD 0 1) g).1 in
  ∃ fn : Q → M rng float32,
    run make_normal_normal g =
    (Ok fn, ((draw (NormalD 0 1) g).2,
             [Site "mu_laten" (NormalD 0 1) mu_latent]))
    ∧ let d := NormalD mu_latent scale in
      let z1 := (draw d g').1 in
      let z2 := (draw d (draw d g').2).1 in
      fn scale (g', tr) =
      (Ok (tensor_mul z1 z2),
       ((draw d (draw d g').2).2, tr ++ [Site "z1" d z1; Site "z2" d z2])).
Proof.
  intros Hs H1 H2 mu_latent. eexists. split.
  - unfold run. apply (make_normal_normal_on g []). apply not_elem_of_nil.
  - apply normal_product_on; assumption.
Qed.

Lemma weather_no_key_error (st : rng * list site) :
  (weather st).1 ≠ Err KeyError.
Proof.
  destruct st as [g tr]. unfold weather, Bernoulli, Normal.
  assert (Hv : valid (BernoulliD 0.3)) by q_closed.
  rewrite (bind_ok _ _ _ _ _ (make_dist_ok _ (g, tr) Hv)).
  destruct (decide ("cloudy" ∈ names tr)) as [Hc | Hc].
  { rewrite (bind_err _ _ _ _ _ (sample_dup _ _ _ _ Hc)). discriminate. }
  rewrite (bind_ok _ _ _ _ _ (sample_fresh _ _ _ _ Hc)). cbv zeta.
  rewrite (bind_ok _ _ _ _ _ (getitem_ok _ _ _ _ (mean_temp_lookup _))).
  rewrite (bind_ok _ _ _ _ _ (getitem_ok _ _ _ _ (scale_temp_lookup _))).
  match goal with
  | |- context [make_dist ?d] =>
      assert (Hn : valid d) by (destruct (Qeq_bool _ 1.0); q_closed)
  end.
  rewrite (bind_ok _ _ _ _ _ (make_dist_ok _ _ Hn)).
  match goal with
  | |- context [(sample "temp" ?d ≫= _) (?g1, ?tr1)] =>
      destruct (decide ("temp" ∈ names tr1)) as [Ht | Ht];
      [ rewrite (bind_err _ _ _ _ _ (sample_dup "temp" d g1 tr1 Ht))
      | rewrite (bind_ok _ _ _ _ _ (sample_fresh "temp" d g1 tr1 Ht)) ]
  end; discriminate.
Qed.

(** C10: on every run [weather] returns a pair whose first component is
    one of the two strings 'cloudy' and 'sunny'; that string is a key
    of both dictionaries, so neither lookup can fail: no call of
    [weather], on any state, ends in KeyError. *)
Theorem weather_label_is_a_key (g : rng) (st : rng * list site) :
  (∃ (cloudy : string) (temp : Q) (st' : rng * list site),
      run weather g = (Ok (cloudy, temp), st')
      ∧ (cloudy = "cloudy" ∨ cloudy = "sunny")
      ∧ is_Some (({[ "cloudy" := 55.0; "sunny" := 75.0 ]} : gmap string Q) !! cloudy)
      ∧ is_Some (({[ "cloudy" := 10.0; "sunny" := 15.0 ]} : gmap string Q) !! cloudy))
  ∧ (weather st).1 ≠ Err KeyError.
Proof.
  split; [| apply weather_no_key_error].
  pose proof (weather_run g) as Hw. cbv zeta in Hw.
  eexists _, _, _. split; [exact Hw |].
  rewrite mean_temp_lookup, scale_temp_lookup.
  destruct (Qeq_bool _ 1.0); eauto.
Qed.

End NotebookProperties.

(** ** The properties on the concrete source *)

Lemma geometric_counts_failures_witness :
  run (geometric 10 0.5 None) 101%Z =
  (Ok 1%Z,
   (503513579%Z,
    [Site "x_0" (BernoulliD 0.5) 0; Site "x_1" (BernoulliD 0.5) 1])).
Proof.
  refine (eq_trans (geometric_counts_failures 0.5 None 10 1 101%Z _ _ _ _) _).
  - q_closed.
  - lia.
  - intros i Hi. assert (i = O) as -> by lia. vm_compute. discriminate.
  - vm_compute. reflexivity.
  - vm_compute. reflexivity.
Defined.

Lemma geometric_one_returns_zero_witness :
  run (geometric 0 1 None) 101%Z =
  (Ok 0%Z, (1933386042%Z, [Site "x_0" (BernoulliD 1) 1])).
Proof.
  refine (eq_trans (geometric_one_returns_zero 0 101%Z lcg_sound) _).
  vm_compute. reflexivity.
Defined.

Lemma geometric_zero_exceeds_every_bound_witness :
  run (geometric 3 0 None) 101%Z =
  (Err RecursionLimitExceeded,
   (1056259553%Z,
    [Site "x_0" (BernoulliD 0) 0; Site "x_1" (BernoulliD 0) 0;
     Site "x_2" (BernoulliD 0) 0; Site "x_3" (BernoulliD 0) 0])).
Proof.
  refine (eq_trans (proj1 (geometric_zero_exceeds_every_bound 3 101%Z lcg_sound)) _).
  vm_compute. reflexivity.
Defined.

Lemma invalid_parameter_surfaces_witness :
  geometric 3 1.5 None (101%Z, []) = (Err InvalidParameter, (101%Z, []))
  ∧ normal_product 0 (-1) (101%Z, []) = (Err InvalidParameter, (101%Z, [])).
Proof.
  assert (Hp : ¬ (0 <= 1.5 ∧ 1.5 <= 1))
    by (intros [_ Hle]; revert Hle; unfold Qle; simpl; lia).
  assert (Hs : -1 <= 0) by (unfold Qle; simpl; lia).
  pose proof (invalid_parameter_surfaces 1.5 0 (-1) 3 None (101%Z, []) 101%Z Hp Hs)
    as (_ & _ & Hg & Hn & _).
  exact (conj Hg Hn).
Defined.

Lemma make_normal_normal_draws_witness :
  ∃ fn : Q → M Z float32,
    (run make_normal_normal 101%Z).1 = Ok fn
    ∧ names (fn 1 (7%Z, [])).2.2 = ["z1"; "z2"].
Proof.
  assert (H1 : "z1" ∉ names []) by apply not_elem_of_nil.
  assert (H2 : "z2" ∉ names []) by apply not_elem_of_nil.
  assert (Hs : 0 < 1) by (unfold Qlt; simpl; lia).
  destruct (make_normal_normal_draws 101%Z 7%Z [] 1 Hs H1 H2) as (fn & Hrun & Hfn).
  exists fn. rewrite Hrun. split; [reflexivity |].
  cbv zeta in Hfn. rewrite Hfn. reflexivity.
Defined.

(** ** Further properties of geometric *)

Section GeometricOutcomes.
Context {rng : Type} `{RandomSource rng}.

(** Among the first [fuel + 1] draws either there is a first success or
    all fail. *)
Lemma first_success_dec (d : dist) (fuel : nat) (g : rng) :
  (∃ k : nat, (k ≤ fuel)%nat
     ∧ (∀ i, (i < k)%nat → Qeq_bool (nth_draw d i g) 1 = false)
     ∧ Qeq_bool (nth_draw d k g) 1 = true)
  ∨ (∀ i, (i ≤ fuel)%nat → Qeq_bool (nth_draw d i g) 1 = false).
Proof.
  induction fuel as [|fuel IH].
  - destruct (Qeq_bool (nth_draw d 0 g) 1) eqn:H0.
    + left. exists O. repeat split; auto. intros i Hi. lia.
    + right. intros i Hi. assert (i = O) as -> by lia. exact H0.
  - destruct IH as [(k & Hk & Hfail & Hsucc) | Hall].
    + left. exists k. repeat split; auto.
    + destruct (Qeq_bool (nth_draw d (S fuel) g) 1) eqn:HS.
      * left. exists (S fuel). repeat split; auto. intros i Hi. apply Hall. lia.
      * right. intros i Hi. destruct (decide (i = S fuel)) as [-> | Hne]; [exact HS |].
        apply Hall. lia.
Qed.

Lemma geometric_invalid (fuel : nat) (p : Q) (t : option Z) (st : rng * list site) :
  ¬ valid (BernoulliD p) → geometric fuel p t st = (Err InvalidParameter, st).
Proof.
  intros Hp. destruct fuel; simpl geometric; unfold Bernoulli;
    apply bind_err, make_dist_err, Hp.
Qed.

(** What a returned value says about the draws. *)
Lemma geometric_ok_inv (fuel : nat) (p : Q) (t : option Z) (g : rng)
    (r : Z) (st' : rng * list site) :
  run (geometric fuel p t) g = (Ok r, st') →
  ∃ k : nat,
    r = Z.of_nat k ∧ (k ≤ fuel)%nat ∧ valid (BernoulliD p)
    ∧ (∀ i, (i < k)%nat → Qeq_bool (nth_draw (BernoulliD p) i g) 1 = false)
    ∧ Qeq_bool (nth_draw (BernoulliD p) k g) 1 = true
    ∧ st' = (after_draws (BernoulliD p) (S k) g, x_sites p (default 0%Z t) (S k) g).
Proof.
  unfold run. rewrite geometric_default. intros Hrun.
  destruct (validb (BernoulliD p)) eqn:Hv.
  - apply validb_true in Hv.
    destruct (first_success_dec (BernoulliD p) fuel g)
      as [(k & Hk & Hfail & Hsucc) | Hall].
    + rewrite (geometric_success k fuel p _ g [] Hv (no_x_name_in_nil _) Hk Hfail Hsucc)
        in Hrun.
      injection Hrun as <- <-. exists k. repeat split; auto; apply Hv.
    + rewrite (geometric_exhausts fuel p _ g [] Hv (no_x_name_in_nil _) Hall) in Hrun.
      discriminate.
  - apply validb_false in Hv. rewrite (geometric_invalid _ _ _ _ Hv) in Hrun.
    discriminate.
Qed.

(** X1: a value returned by [geometric] is the index of the first
    success.  When a top-level call returns [r], then [r] is a count
    between 0 and the recursion limit, draw number [r] of the stream is 1,
    no earlier draw is, and the trace holds exactly the [r + 1] sites of
    the successive depths. *)
Theorem geometric_returns_first_success (fuel : nat) (p : Q) (t : option Z)
    (g : rng) (r : Z) (g' : rng) (tr : list site) :
  run (geometric fuel p t) g = (Ok r, (g', tr)) →
  (0 <= r <= Z.of_nat fuel)%Z
  ∧ nth_draw (BernoulliD p) (Z.to_nat r) g == 1
  ∧ (∀ i, (i < Z.to_nat r)%nat → ¬ nth_draw (BernoulliD p) i g == 1)
  ∧ g' = after_draws (BernoulliD p) (S (Z.to_nat r)) g
  ∧ names tr = x_names (default 0%Z t) (S (Z.to_nat r))
  ∧ length tr = S (Z.to_nat r).
Proof.
  intros Hrun.
  destruct (geometric_ok_inv _ _ _ _ _ _ Hrun)
    as (k & -> & Hk & _ & Hfail & Hsucc & Hst).
  assert (Hg : g' = after_draws (BernoulliD p) (S k) g) by congruence.
  assert (Htr : tr = x_sites p (default 0%Z t) (S k) g) by congruence.
  clear Hst. subst g' tr. rewrite Nat2Z.id.
  split; [lia |]. split; [apply Qeq_bool_iff, Hsucc |].
  split; [intros i Hi; apply Qeq_bool_false_iff, Hfail, Hi |].
  split; [reflexivity |]. split; [apply names_x_sites |].
  rewrite <- (length_fmap site_name). fold (names (x_sites p (default 0%Z t) (S k) g)).
  rewrite names_x_sites. apply x_names_length.
Qed.

(** X2: with a valid probability a top-level call of [geometric] has
    only two kinds of outcome: it returns a count not above the recursion
    limit, or it ends in RecursionLimitExceeded, and the latter happens
    exactly when none of the first [fuel + 1] draws is 1. *)
Theorem geometric_outcomes (fuel : nat) (p : Q) (t : option Z) (g : rng) :
  0 <= p ∧ p <= 1 →
  ((∃ k : nat, (k ≤ fuel)%nat
      ∧ (run (geometric fuel p t) g).1 = Ok (Z.of_nat k)
      ∧ nth_draw (BernoulliD p) k g == 1)
   ∧ ¬ (∀ i, (i ≤ fuel)%nat → ¬ nth_draw (BernoulliD p) i g == 1))
  ∨ ((run (geometric fuel p t) g).1 = Err RecursionLimitExceeded
     ∧ (∀ i, (i ≤ fuel)%nat → ¬ nth_draw (BernoulliD p) i g == 1)).
Proof.
  intros Hp. unfold run. rewrite geometric_default.
  destruct (first_success_dec (BernoulliD p) fuel g)
    as [(k & Hk & Hfail & Hsucc) | Hall].
  - left. split.
    + exists k.
      rewrite (geometric_success k fuel p _ g [] Hp (no_x_name_in_nil _) Hk Hfail Hsucc).
      repeat split; auto. apply Qeq_bool_iff, Hsucc.
    + intros Hnone. apply (Hnone k Hk). apply Qeq_bool_iff, Hsucc.
  - right. rewrite (geometric_exhausts fuel p _ g [] Hp (no_x_name_in_nil _) Hall).
    split; [reflexivity |]. intros i Hi. apply Qeq_bool_false_iff, Hall, Hi.
Qed.

(** X3: raising the recursion limit does not change a returned value:
    a top-level call that returns with limit [fuel] returns the same
    value, trace and stream state with every larger limit. *)
Theorem geometric_limit_monotone (fuel fuel' : nat) (p : Q) (t : option Z)
    (g : rng) (r : Z) (st' : rng * list site) :
  run (geometric fuel p t) g = (Ok r, st') →
  (fuel ≤ fuel')%nat →
  run (geometric fuel' p t) g = (Ok r, st').
Proof.
  intros Hrun Hle.
  destruct (geometric_ok_inv _ _ _ _ _ _ Hrun)
    as (k & -> & Hk & Hv & Hfail & Hsucc & ->).
  unfold run. rewrite geometric_default.
  apply (geometric_success k fuel' p _ g [] Hv (no_x_name_in_nil _));
    [lia | exact Hfail | exact Hsucc].
Qed.

End GeometricOutcomes.

Section GeometricShape.
Context {rng : Type} `{RandomSource rng}.

Lemma x_sites_fns (p : Q) (t : Z) (n : nat) (g : rng) :
  site_fn <$> x_sites p t n g = replicate n (BernoulliD p).
Proof.
  revert t g. induction n as [|n IH]; intros t g; [done |].
  simpl. by rewrite IH.
Qed.

Lemma x_sites_lookup_value (p : Q) (t : Z) (n i : nat) (g : rng) (s : site) :
  x_sites p t n g !! i = Some s → site_value s = nth_draw (BernoulliD p) i g.
Proof.
  intros Hs.
  assert (Hv : (site_value <$> x_sites p t n g) !! i = Some (site_value s))
    by (rewrite list_lookup_fmap, Hs; reflexivity).
  rewrite x_sites_values, list_lookup_fmap in Hv.
  destruct (seq 0 n !! i) as [j|] eqn:Hj; [| discriminate].
  apply lookup_seq in Hj as [-> _]. simpl in Hv. congruence.
Qed.

(** The result of a top-level call, the number of draws it makes and
    what it records do not depend on the start depth, the names apart. *)
Lemma geometric_run_shape (fuel : nat) (p : Q) (g : rng) :
  ∃ (r : result Z) (n : nat), ∀ t : option Z,
    run (geometric fuel p t) g =
    (r, (after_draws (BernoulliD p) n g, x_sites p (default 0%Z t) n g)).
Proof.
  destruct (validb (BernoulliD p)) eqn:Hv.
  - apply validb_true in Hv.
    destruct (first_success_dec (BernoulliD p) fuel g)
      as [(k & Hk & Hfail & Hsucc) | Hall].
    + exists (Ok (Z.of_nat k)), (S k). intros t. unfold run.
      rewrite geometric_default.
      apply (geometric_success k fuel p _ g [] Hv (no_x_name_in_nil _) Hk Hfail Hsucc).
    + exists (Err RecursionLimitExceeded), (S fuel). intros t. unfold run.
      rewrite geometric_default.
      apply (geometric_exhausts fuel p _ g [] Hv (no_x_name_in_nil _) Hall).
  - apply validb_false in Hv. exists (Err InvalidParameter), O. intros t.
    unfold run. apply geometric_invalid, Hv.
Qed.

(** X4: the start depth of [geometric] only chooses the names.  From
    the same stream state, top-level calls at two start depths end with
    the same result and the same stream state, and record the same
    distributions and values in the same order. *)
Theorem geometric_depth_only_names (fuel : nat) (p : Q) (t t' : option Z) (g : rng) :
  (run (geometric fuel p t) g).1 = (run (geometric fuel p t') g).1
  ∧ (run (geometric fuel p t) g).2.1 = (run (geometric fuel p t') g).2.1
  ∧ site_fn <$> (run (geometric fuel p t) g).2.2
    = site_fn <$> (run (geometric fuel p t') g).2.2
  ∧ site_value <$> (run (geometric fuel p t) g).2.2
    = site_value <$> (run (geometric fuel p t') g).2.2.
Proof.
  destruct (geometric_run_shape fuel p g) as (r & n & Hshape).
  rewrite (Hshape t), (Hshape t'). simpl.
  rewrite !x_sites_fns, !x_sites_values. auto.
Qed.

(** X5: on a sound random source the trace of a returning call of
    [geometric] reads as the trials went: every site before the last
    holds 0 (a failure) and the last site holds 1 (the success). *)
Theorem geometric_trace_values (fuel : nat) (p : Q) (t : option Z) (g : rng)
    (r : Z) (g' : rng) (tr : list site) (i : nat) (s : site) :
  SoundSource rng →
  run (geometric fuel p t) g = (Ok r, (g', tr)) →
  tr !! i = Some s →
  ((i < Z.to_nat r)%nat ∧ site_value s == 0)
  ∨ (i = Z.to_nat r ∧ site_value s == 1).
Proof.
  intros Hsound Hrun Hs.
  destruct (geometric_ok_inv _ _ _ _ _ _ Hrun)
    as (k & -> & Hk & Hv & Hfail & Hsucc & Hst).
  assert (Htr : tr = x_sites p (default 0%Z t) (S k) g) by congruence.
  subst tr. rewrite Nat2Z.id.
  pose proof (lookup_lt_Some _ _ _ Hs) as Hlt.
  rewrite <- (length_fmap site_name) in Hlt.
  fold (names (x_sites p (default 0%Z t) (S k) g)) in Hlt.
  rewrite names_x_sites, x_names_length in Hlt.
  rewrite (x_sites_lookup_value _ _ _ _ _ _ Hs).
  destruct (decide (i = k)) as [-> | Hne].
  - right. split; [reflexivity | apply Qeq_bool_iff, Hsucc].
  - left. split; [lia |].
    pose proof (Hfail i ltac:(lia)) as Hi. apply Qeq_bool_false_iff in Hi.
    destruct (Hsound (BernoulliD p) (after_draws (BernoulliD p) i g) Hv)
      as [[H1 _] | [H0 _]]; [contradiction | exact H0].
Qed.

End GeometricShape.

(** ** The two weather models *)

Section TwoWeathers.
Context {rng : Type} `{RandomSource rng}.

Lemma dist_sample_on (fn : dist) (g : rng) (tr : list site) :
  dist_sample fn (g, tr) = (Ok (draw fn g).1, ((draw fn g).2, tr)).
Proof. unfold dist_sample. destruct (draw fn g). reflexivity. Qed.

(** What one call of the first [weather] does, on any state. *)
Lemma weather_torch_on (g : rng) (tr : list site) :
  let c := (draw (BernoulliD 0.3) g).1 in
  let g1 := (draw (BernoulliD 0.3) g).2 in
  let fn := NormalD (if Qeq_bool c 1.0 then 55.0 else 75.0)
                    (if Qeq_bool c 1.0 then 10.0 else 15.0) in
  weather_torch (g, tr) =
  (Ok (if Qeq_bool c 1.0 then "cloudy" else "sunny", (draw fn g1).1),
   ((draw fn g1).2, tr)).
Proof.
  intros c g1 fn. unfold weather_torch, Bernoulli, Normal.
  assert (Hv : valid (BernoulliD 0.3)) by q_closed.
  rewrite (bind_ok _ _ _ _ _ (make_dist_ok _ (g, tr) Hv)).
  rewrite (bind_ok _ _ _ _ _ (dist_sample_on _ _ _)).
  fold c g1. cbv zeta.
  rewrite (bind_ok _ _ _ _ _ (getitem_ok _ _ _ _ (mean_temp_lookup _))).
  rewrite (bind_ok _ _ _ _ _ (getitem_ok _ _ _ _ (scale_temp_lookup _))).
  assert (Hn : valid fn) by (unfold fn; destruct (Qeq_bool c 1.0); q_closed).
  rewrite (bind_ok _ _ _ _ _ (make_dist_ok _ _ Hn)).
  rewrite (bind_ok _ _ _ _ _ (dist_sample_on _ _ _)). reflexivity.
Qed.

(** X6: the two definitions of [weather] compute the same thing.  From
    the same stream state the first one (on distribution objects, on any
    trace) and the second one (on the named sampler, on a fresh trace)
    return the same pair and leave the same stream state; the first
    leaves the trace as it found it and cannot fail, the second records
    the two sites 'cloudy' and 'temp'. *)
Theorem weather_models_agree (g : rng) (tr : list site) :
  ∃ (cloudy : string) (temp : Q) (g' : rng) (tr' : list site),
    weather_torch (g, tr) = (Ok (cloudy, temp), (g', tr))
    ∧ run weather g = (Ok (cloudy, temp), (g', tr'))
    ∧ names tr' = ["cloudy"; "temp"]
    ∧ (site_value <$> tr') !! 1%nat = Some temp.
Proof.
  pose proof (weather_torch_on g tr) as Ht. pose proof (weather_run g) as Hw.
  cbv zeta in Ht, Hw. eexists _, _, _, _.
  split; [exact Ht |]. split; [exact Hw |]. split; reflexivity.
Qed.

Lemma repeat_run_weather_torch (n : nat) (g : rng) :
  (repeat_run n weather_torch g).1.*1 = (repeat_run n weather g).1.*1
  ∧ (repeat_run n weather_torch g).2 = (repeat_run n weather g).2
  ∧ Forall (λ rt : result (string * Q) * list site, rt.2 = [])
           (repeat_run n weather_torch g).1.
Proof.
  revert g. induction n as [|n IH]; intros g.
  - simpl. auto.
  - simpl repeat_run.
    pose proof (weather_torch_on g []) as Ht. pose proof (weather_run g) as Hw.
    cbv zeta in Ht, Hw.
    change (weather_torch (g, [])) with (run weather_torch g) in Ht.
    rewrite Ht, Hw.
    match goal with
    | |- context [repeat_run n weather_torch ?g'] =>
        destruct (IH g') as (Hres & Hfin & Hemp);
        destruct (repeat_run n weather_torch g') as [rs gn];
        destruct (repeat_run n weather g') as [rs' gn']
    end.
    simpl in *. split; [f_equal; exact Hres |]. split; [exact Hfin |].
    constructor; [reflexivity | exact Hemp].
Qed.

(** X7: the two printing loops (lines 70-71 and 99-100) show the same
    values.  [n] calls in a row of the first [weather] and [n] calls in a
    row of the second, from the same stream state, give the same results
    in the same order and leave the same stream state; the first loop
    records nothing. *)
Theorem weather_loops_agree (n : nat) (g : rng) :
  (repeat_run n weather_torch g).1.*1 = (repeat_run n weather g).1.*1
  ∧ (repeat_run n weather_torch g).2 = (repeat_run n weather g).2
  ∧ Forall (λ rt : result (string * Q) * list site, rt.2 = [])
           (repeat_run n weather_torch g).1
  ∧ length (repeat_run n weather_torch g).1 = n.
Proof.
  destruct (repeat_run_weather_torch n g) as (Hres & Hfin & Hemp).
  split; [exact Hres |]. split; [exact Hfin |]. split; [exact Hemp |].
  rewrite <- (length_fmap fst), Hres, length_fmap.
  apply (repeat_run_weather n g).
Qed.

End TwoWeathers.

(** ** Lookups, failures and the shape of traces *)

Section Failures.
Context {rng : Type} `{RandomSource rng}.

(** X9: [make_normal_normal()(scale)] generates three named random
    variables.  With [scale > 0], on a fresh trace, the call records
    'mu_laten' from Normal(0, 1), then 'z1' and 'z2' from
    Normal(mu_latent, scale), in this order and nothing else, and returns
    the product of the last two, as the multiplication of tensors
    computes it. *)
Theorem make_normal_normal_three_sites (scale : Q) (g : rng) :
  0 < scale →
  let mu_latent := (draw (NormalD 0 1) g).1 in
  let g1 := (draw (NormalD 0 1) g).2 in
  let d := NormalD mu_latent scale in
  let z1 := (draw d g1).1 in
  let g2 := (draw d g1).2 in
  let z2 := (draw d g2).1 in
  run (make_normal_normal_call scale) g =
  (Ok (tensor_mul z1 z2),
   ((draw d g2).2,
    [Site "mu_laten" (NormalD 0 1) mu_latent; Site "z1" d z1; Site "z2" d z2])).
Proof.
  intros Hs mu_latent g1 d z1 g2 z2. unfold run, make_normal_normal_call.
  rewrite (bind_ok _ _ _ _ _
             (make_normal_normal_on g [] ltac:(apply not_elem_of_nil))).
  apply (normal_product_on mu_latent scale g1 [Site "mu_laten" (NormalD 0 1) mu_latent] Hs).
  - unfold names. simpl. rewrite list_elem_of_singleton. discriminate.
  - unfold names. simpl. rewrite list_elem_of_singleton. discriminate.
Qed.

Lemma weather_dup (g : rng) (tr : list site) :
  "cloudy" ∈ names tr ∨ "temp" ∈ names tr →
  ∃ st', weather (g, tr) = (Err DuplicateName, st').
Proof.
  intros Hin. unfold weather, Bernoulli, Normal.
  assert (Hv : valid (BernoulliD 0.3)) by q_closed.
  rewrite (bind_ok _ _ _ _ _ (make_dist_ok _ (g, tr) Hv)).
  destruct (decide ("cloudy" ∈ names tr)) as [Hc | Hc].
  { rewrite (bind_err _ _ _ _ _ (sample_dup _ _ _ _ Hc)). eauto. }
  destruct Hin as [Hc' | Ht]; [contradiction |].
  rewrite (bind_ok _ _ _ _ _ (sample_fresh _ _ _ _ Hc)). cbv zeta.
  rewrite (bind_ok _ _ _ _ _ (getitem_ok _ _ _ _ (mean_temp_lookup _))).
  rewrite (bind_ok _ _ _ _ _ (getitem_ok _ _ _ _ (scale_temp_lookup _))).
  match goal with
  | |- context [make_dist ?d] =>
      assert (Hn : valid d) by (destruct (Qeq_bool _ 1.0); q_closed)
  end.
  rewrite (bind_ok _ _ _ _ _ (make_dist_ok _ _ Hn)).
  eexists. apply bind_err, sample_dup.
  rewrite names_snoc, elem_of_app. left. exact Ht.
Qed.

(** X10: a name collision is the only way [weather] and
    [ice_cream_sales] fail.  On any state, [weather] returns a value when
    the trace holds neither 'cloudy' nor 'temp' and ends in DuplicateName
    otherwise; [ice_cream_sales] returns a value when the trace holds none
    of 'cloudy', 'temp' and 'ice_cream' and ends in DuplicateName
    otherwise.  Neither ever ends in InvalidParameter, KeyError or
    RecursionLimitExceeded. *)
Theorem weather_fails_only_on_collision (g : rng) (tr : list site) :
  (if bool_decide ("cloudy" ∈ names tr ∨ "temp" ∈ names tr)
   then (weather (g, tr)).1 = Err DuplicateName
   else ∃ v, (weather (g, tr)).1 = Ok v)
  ∧ (if bool_decide ("cloudy" ∈ names tr ∨ "temp" ∈ names tr
                     ∨ "ice_cream" ∈ names tr)
     then (ice_cream_sales (g, tr)).1 = Err DuplicateName
     else ∃ v, (ice_cream_sales (g, tr)).1 = Ok v).
Proof.
  split.
  - case_bool_decide as Hin.
    + destruct (weather_dup g tr Hin) as [st' ->]. reflexivity.
    + rewrite weather_on by (intros ?; apply Hin; auto). simpl. eauto.
  - unfold ice_cream_sales, Normal.
    destruct (decide ("cloudy" ∈ names tr ∨ "temp" ∈ names tr)) as [Hw | Hw].
    + rewrite bool_decide_eq_true_2 by (destruct Hw; auto).
      destruct (weather_dup g tr Hw) as [st' Hst].
      rewrite (bind_err _ _ _ _ _ Hst). reflexivity.
    + assert (Hc : "cloudy" ∉ names tr) by (intros ?; apply Hw; auto).
      assert (Ht : "temp" ∉ names tr) by (intros ?; apply Hw; auto).
      pose proof (weather_on g tr Hc Ht) as Hok.
      cbv zeta in Hok. rewrite (bind_ok _ _ _ _ _ Hok).
      match goal with
      | |- context [make_dist ?d] =>
          assert (Hn : valid d) by (destruct (bool_decide _ && negb _); q_closed)
      end.
      rewrite (bind_ok _ _ _ _ _ (make_dist_ok _ _ Hn)).
      destruct (decide ("ice_cream" ∈ names tr)) as [Hi | Hi].
      * rewrite (bool_decide_eq_true_2
                   ("cloudy" ∈ names tr ∨ "temp" ∈ names tr ∨ "ice_cream" ∈ names tr))
          by auto.
        erewrite bind_err; [reflexivity |].
        apply sample_dup. unfold names. rewrite fmap_app, elem_of_app.
        left. exact Hi.
      * rewrite (bool_decide_eq_false_2
                   ("cloudy" ∈ names tr ∨ "temp" ∈ names tr ∨ "ice_cream" ∈ names tr))
          by (intros [?|[?|?]]; done).
        erewrite bind_ok; [simpl; eauto |].
        apply sample_fresh. unfold names. rewrite fmap_app, elem_of_app. simpl.
        rewrite !elem_of_cons, elem_of_nil.
        intros [Hi' | [Hi' | [Hi' | []]]]; try discriminate. done.
Qed.

End Failures.

(** ** Traces only grow *)

Section AppendOnly.
Context {rng : Type} `{RandomSource rng}.

Lemma append_only_ret {A} (a : A) : append_only (mret a : M rng A).
Proof. intros g tr. reflexivity. Qed.

Lemma append_only_raise {A} (e : error) : append_only (raise e : M rng A).
Proof. intros g tr. reflexivity. Qed.

Lemma append_only_bind {A B} (m : M rng A) (f : A → M rng B) :
  append_only m → (∀ a, append_only (f a)) → append_only (m ≫= f).
Proof.
  intros Hm Hf g tr. rewrite bind_unfold. specialize (Hm g tr).
  destruct (m (g, tr)) as [[a | e] [g' tr']]; simpl in *; [| exact Hm].
  etrans; [exact Hm | apply Hf].
Qed.

Lemma append_only_make_dist (d : dist) : append_only (make_dist d : M rng dist).
Proof.
  unfold make_dist. destruct (validb d);
    [apply append_only_ret | apply append_only_raise].
Qed.

Lemma append_only_getitem (d : gmap string Q) (k : string) :
  append_only (getitem d k : M rng Q).
Proof.
  unfold getitem. destruct (d !! k);
    [apply append_only_ret | apply append_only_raise].
Qed.

Lemma append_only_sample (name : string) (fn : dist) : append_only (sample name fn).
Proof.
  intros g tr. unfold sample. destruct (bool_decide _); [reflexivity |].
  destruct (draw fn g). simpl. by apply prefix_app_r.
Qed.

Lemma append_only_dist_sample (fn : dist) : append_only (dist_sample fn).
Proof. intros g tr. unfold dist_sample. destruct (draw fn g). reflexivity. Qed.

Lemma append_only_normal_product (loc scale : Q) :
  append_only (normal_product loc scale).
Proof.
  unfold normal_product, Normal.
  repeat (apply append_only_bind; [| intros ?]);
    auto using append_only_make_dist, append_only_sample, append_only_ret.
Qed.

Lemma append_only_weather : append_only weather.
Proof.
  unfold weather, Bernoulli, Normal.
  repeat (apply append_only_bind; [| intros ?]);
    auto using append_only_make_dist, append_only_sample, append_only_getitem,
               append_only_ret.
Qed.

Lemma append_only_geometric (fuel : nat) (p : Q) (t : option Z) :
  append_only (geometric fuel p t).
Proof.
  revert t. induction fuel as [|fuel IH]; intros t; simpl geometric; unfold Bernoulli;
    (apply append_only_bind; [apply append_only_make_dist | intros fn]);
    (apply append_only_bind; [apply append_only_sample | intros x]);
    destruct (Qeq_bool x 1); try apply append_only_ret.
  - apply append_only_raise.
  - apply append_only_bind; [apply IH | intros r; apply append_only_ret].
Qed.

(** X11: no stochastic function of the file rewrites or drops what is
    already recorded.  From every state, whether the call returns or
    fails, the trace it leaves has the trace it found as a prefix. *)
Theorem traces_only_grow (fuel : nat) (p loc scale : Q) (t : option Z) :
  append_only weather
  ∧ append_only weather_torch
  ∧ append_only ice_cream_sales
  ∧ append_only (geometric fuel p t)
  ∧ append_only (normal_product loc scale)
  ∧ append_only make_normal_normal
  ∧ append_only (make_normal_normal_call scale).
Proof.
  split; [apply append_only_weather |].
  split.
  { unfold weather_torch, Bernoulli, Normal.
    repeat (apply append_only_bind; [| intros ?]);
      auto using append_only_make_dist, append_only_dist_sample,
                 append_only_getitem, append_only_ret. }
  split.
  { unfold ice_cream_sales, Normal.
    apply append_only_bind; [apply append_only_weather | intros [cloudy temp]].
    repeat (apply append_only_bind; [| intros ?]);
      auto using append_only_make_dist, append_only_sample, append_only_ret. }
  split; [apply append_only_geometric |].
  split; [apply append_only_normal_product |].
  assert (Hm : append_only make_normal_normal).
  { unfold make_normal_normal, Normal.
    repeat (apply append_only_bind; [| intros ?]);
      auto using append_only_make_dist, append_only_sample, append_only_ret. }
  split; [exact Hm |].
  unfold make_normal_normal_call.
  intros g tr. rewrite bind_unfold.
  specialize (Hm g tr).
  destruct (make_normal_normal (g, tr)) as [[fn | e] [g' tr']] eqn:Hrun;
    simpl in *; [| exact Hm].
  etrans; [exact Hm |].
  unfold make_normal_normal, Normal in Hrun.
  rewrite bind_unfold in Hrun.
  destruct (make_dist (NormalD 0 1) (g, tr)) as [[d | e] st1]; [| discriminate].
  rewrite bind_unfold in Hrun.
  destruct (sample "mu_laten" d st1) as [[mu | e] st2]; [| discriminate].
  injection Hrun as <- _. apply append_only_normal_product.
Qed.

End AppendOnly.

(** ** The further properties on the concrete source *)

Lemma geometric_returns_first_success_witness :
  (0 <= 1 <= Z.of_nat 10)%Z
  ∧ nth_draw (BernoulliD 0.5) (Z.to_nat 1) 101%Z == 1
  ∧ length [Site "x_0" (BernoulliD 0.5) 0; Site "x_1" (BernoulliD 0.5) 1]
    = S (Z.to_nat 1).
Proof.
  assert (Hrun : run (geometric 10 0.5 None) 101%Z =
                 (Ok 1%Z, (503513579%Z,
                           [Site "x_0" (BernoulliD 0.5) 0;
                            Site "x_1" (BernoulliD 0.5) 1])))
    by (vm_compute; reflexivity).
  pose proof (geometric_returns_first_success 10 0.5 None 101%Z 1 _ _ Hrun)
    as (Hr & Hone & _ & _ & _ & Hlen).
  exact (conj Hr (conj Hone Hlen)).
Defined.

Lemma geometric_outcomes_witness :
  (∃ k : nat, (k ≤ 10)%nat
     ∧ (run (geometric 10 0.5 None) 101%Z).1 = Ok (Z.of_nat k)
     ∧ nth_draw (BernoulliD 0.5) k 101%Z == 1)
  ∨ (run (geometric 10 0.5 None) 101%Z).1 = Err RecursionLimitExceeded.
Proof.
  assert (Hp : 0 <= 0.5 ∧ 0.5 <= 1) by (unfold Qle; simpl; lia).
  destruct (geometric_outcomes 10 0.5 None 101%Z Hp) as [[Hk _] | [Herr _]].
  - left. exact Hk.
  - right. exact Herr.
Defined.

Lemma geometric_limit_monotone_witness :
  run (geometric 1000 0.5 None) 101%Z =
  (Ok 1%Z,
   (503513579%Z,
    [Site "x_0" (BernoulliD 0.5) 0; Site "x_1" (BernoulliD 0.5) 1])).
Proof.
  apply (geometric_limit_monotone 1 1000 0.5 None 101%Z).
  - vm_compute. reflexivity.
  - lia.
Defined.

Lemma geometric_trace_values_witness :
  ((0 < Z.to_nat 1)%nat ∧ site_value (Site "x_0" (BernoulliD 0.5) 0) == 0)
  ∨ (O = Z.to_nat 1 ∧ site_value (Site "x_0" (BernoulliD 0.5) 0) == 1).
Proof.
  apply (geometric_trace_values 10 0.5 None 101%Z 1 503513579%Z
           [Site "x_0" (BernoulliD 0.5) 0; Site "x_1" (BernoulliD 0.5) 1]
           O _ lcg_sound).
  - vm_compute. reflexivity.
  - reflexivity.
Defined.

Lemma make_normal_normal_three_sites_witness :
  (run (make_normal_normal_call 1) 101%Z).1
  = Ok (SpecFloat.S754_finite false 12060653 (-20))
  ∧ names (run (make_normal_normal_call 1) 101%Z).2.2 = ["mu_laten"; "z1"; "z2"].
Proof.
  assert (Hs : 0 < 1) by (unfold Qlt; simpl; lia).
  pose proof (make_normal_normal_three_sites 1 101%Z Hs) as Hrun.
  cbv zeta in Hrun. rewrite Hrun. split; [vm_compute |]; reflexivity.
Defined.
